(** * Users directory (App.tsx): load cycle and filter engine

    A shallow embedding of the React component [App] of [src/App.tsx]:
    the six [useState] cells, the derived values computed with [useMemo]
    ([cityOptions], [companyOptions], [filteredUsers]), the [clearAll]
    handler, the conditional blocks of the returned markup, and the
    asynchronous fetch effect as a transition system driven by the
    events of the host (promise settlements, the timer, the cleanup).

    JavaScript strings are modelled by [string]: sequences of code units
    below 256 (the Latin-1 range), on which [trim], [toLowerCase],
    [includes], [startsWith] and the default [sort] order are those of
    ECMAScript. *)

From Stdlib Require Import NArith ZArith Ascii DecimalString.
From stdpp Require Import base decidable list sorting strings.

Local Open Scope string_scope.

(** ** The ECMAScript string and array built-ins the component calls *)

Module Js.

(** WhiteSpace and LineTerminator code units below 256: TAB, LF, VT, FF,
    CR, SP and NBSP. *)
Definition isWhiteSpace (c : ascii) : bool :=
  let n := N_of_ascii c in
  ((9 <=? n) && (n <=? 13) || (n =? 32) || (n =? 160))%N.

Fixpoint trimStart (s : string) : string :=
  match s with
  | EmptyString => EmptyString
  | String c s' => if isWhiteSpace c then trimStart s' else s
  end.

Fixpoint trimEnd (s : string) : string :=
  match s with
  | EmptyString => EmptyString
  | String c s' =>
      match trimEnd s' with
      | EmptyString => if isWhiteSpace c then EmptyString else String c EmptyString
      | t => String c t
      end
  end.

(** [String.prototype.trim] *)
Definition trim (s : string) : string := trimEnd (trimStart s).

(** Lower-case mapping of one code unit: A-Z, and the Latin-1 capitals
    U+00C0..U+00DE except the multiplication sign U+00D7. *)
Definition toLowerCaseUnit (c : ascii) : ascii :=
  let n := N_of_ascii c in
  if ((65 <=? n) && (n <=? 90)
      || (192 <=? n) && (n <=? 222) && negb (n =? 215))%N
  then ascii_of_N (n + 32)
  else c.

(** [String.prototype.toLowerCase] *)
Fixpoint toLowerCase (s : string) : string :=
  match s with
  | EmptyString => EmptyString
  | String c s' => String (toLowerCaseUnit c) (toLowerCase s')
  end.

(** [String.prototype.startsWith] *)
Definition startsWith (s p : string) : bool := String.prefix p s.

(** [String.prototype.includes]: [sub] occurs at some position of [s]. *)
Fixpoint includes (s sub : string) : bool :=
  String.prefix sub s ||
  match s with
  | EmptyString => false
  | String _ s' => includes s' sub
  end.

(** ToBoolean on a string: only the empty string is falsy. *)
Definition truthy (s : string) : bool := negb (String.eqb s "").

(** ToBoolean on [string | null]. *)
Definition truthy_opt (o : option string) : bool :=
  match o with
  | None => false
  | Some s => truthy s
  end.

(** The nullish coalescing operator [a ?? b]. *)
Definition nullish {A} (a : option A) (b : A) : A :=
  match a with
  | Some x => x
  | None => b
  end.

(** Number-to-string conversion of a non-negative integer (template
    literal interpolation). *)
Definition toString (n : N) : string := NilZero.string_of_uint (N.to_uint n).

(** [new Set(xs)] followed by [Array.from]: the values of [xs] in the
    order of their first insertion; a value already present is not added
    again. *)
Fixpoint set_add_all (seen xs : list string) : list string :=
  match xs with
  | [] => seen
  | x :: xs' =>
      set_add_all (if bool_decide (x ∈ seen) then seen else seen ++ [x]) xs'
  end.

Definition array_from_set (xs : list string) : list string :=
  set_add_all [] xs.

(** The order of the default [Array.prototype.sort] comparison on
    strings: code unit by code unit, a proper prefix first. *)
Definition str_le (a b : string) : Prop := String.leb a b = true.

#[global] Instance str_le_dec a b : Decision (str_le a b).
Proof. unfold str_le. apply _. Defined.

(** [Array.prototype.sort()] with no comparison function. *)
Definition sort (xs : list string) : list string := merge_sort str_le xs.

End Js.

(** ** Data model *)

Module Address.
Record t := { city : string }.
End Address.

Module Company.
Record t := { name : string }.
End Company.

Module User.
Record t := {
  id : Z;
  name : string;
  email : string;
  address : Address.t;
  company : Company.t;
  phone : string;
  website : string
}.
End User.

(** The six [useState] cells of [App]. *)
Record State := {
  users : list User.t;
  loading : bool;
  error : option string;
  search : string;
  city : string;
  company : string
}.

Definition setUsers (v : list User.t) (st : State) : State :=
  {| users := v; loading := loading st; error := error st;
     search := search st; city := city st; company := company st |}.

Definition setLoading (v : bool) (st : State) : State :=
  {| users := users st; loading := v; error := error st;
     search := search st; city := city st; company := company st |}.

Definition setError (v : option string) (st : State) : State :=
  {| users := users st; loading := loading st; error := v;
     search := search st; city := city st; company := company st |}.

Definition setSearch (v : string) (st : State) : State :=
  {| users := users st; loading := loading st; error := error st;
     search := v; city := city st; company := company st |}.

Definition setCity (v : string) (st : State) : State :=
  {| users := users st; loading := loading st; error := error st;
     search := search st; city := v; company := company st |}.

Definition setCompany (v : string) (st : State) : State :=
  {| users := users st; loading := loading st; error := error st;
     search := search st; city := city st; company := v |}.

(** The initial values passed to [useState]. *)
Definition initial : State :=
  {| users := []; loading := true; error := None;
     search := ""; city := ""; company := "" |}.

(** ** Filter engine *)

Definition cityOptions (st : State) : list string :=
  Js.sort (Js.array_from_set (map (fun u => Address.city (User.address u)) (users st))).

Definition companyOptions (st : State) : list string :=
  Js.sort (Js.array_from_set (map (fun u => Company.name (User.company u)) (users st))).

(** The callback given to [users.filter]; [s] is the trimmed, lower-cased
    search text. *)
Definition keep (s : string) (st : State) (u : User.t) : bool :=
  let byName :=
    if Js.truthy s then Js.includes (Js.toLowerCase (User.name u)) s else true in
  let byCity :=
    if Js.truthy (city st) then String.eqb (Address.city (User.address u)) (city st)
    else true in
  let byCompany :=
    if Js.truthy (company st) then String.eqb (Company.name (User.company u)) (company st)
    else true in
  byName && byCity && byCompany.

Definition filteredUsers (st : State) : list User.t :=
  let s := Js.toLowerCase (Js.trim (search st)) in
  List.filter (keep s st) (users st).

Definition clearAll (st : State) : State :=
  setCompany "" (setCity "" (setSearch "" st)).

(** The link target computed for each card. *)
Definition site (u : User.t) : string :=
  if Js.startsWith (User.website u) "http"
  then User.website u
  else "https://" +:+ User.website u.

(** ** Rendering: the conditional blocks of the returned markup *)

Record View := {
  (** the paragraph with [aria-busy] *)
  busy : bool;
  (** the [role="alert"] block, with the message it interpolates *)
  alert : option string;
  (** "Showing X of Y users" *)
  count : nat * nat;
  (** the grid of cards, one per filtered user with its link target *)
  results : option (list (User.t * string));
  (** the "No results found" block *)
  noResults : bool
}.

Definition render (st : State) : View :=
  let shown := filteredUsers st in
  let quiet := negb (loading st) && negb (Js.truthy_opt (error st)) in
  {| busy := loading st;
     alert := if Js.truthy_opt (error st) then error st else None;
     count := (length shown, length (users st));
     results :=
       if quiet && (0 <? length shown)%nat
       then Some (map (fun u => (u, site u)) shown)
       else None;
     noResults :=
       quiet && (0 <? length (users st))%nat && (length shown =? 0)%nat |}.

(** ** Data loader: the fetch effect *)

(** A value caught by [catch (err: any)], as far as the handler inspects
    it: [err?.name] and [err?.message]. *)
Module Thrown.
Inductive t :=
| Nullish
| Obj (name message : option string).

Definition name (e : t) : option string :=
  match e with
  | Nullish => None
  | Obj n _ => n
  end.

Definition message (e : t) : option string :=
  match e with
  | Nullish => None
  | Obj _ m => m
  end.

(** [new Error(msg)] *)
Definition Error (msg : string) : t := Obj (Some "Error") (Some msg).

(** The [DOMException] with which an aborted [fetch] or body read rejects. *)
Definition AbortError : t :=
  Obj (Some "AbortError") (Some "signal is aborted without reason").
End Thrown.

Module Response.
Record t := { status : N }.

(** [Response.ok]: the status is in the range 200 to 299. *)
Definition ok (r : t) : bool := ((200 <=? status r) && (status r <=? 299))%N.
End Response.

(** Where the [async] function is suspended. *)
Inductive Phase :=
| AwaitFetch
| AwaitJson (res : Response.t)
| AwaitDelay (data : list User.t)
| Settled.

Record Cycle := {
  cells : State;
  (** [controller.signal.aborted] *)
  aborted : bool;
  phase : Phase
}.

Definition update (f : State -> State) (c : Cycle) : Cycle :=
  {| cells := f (cells c); aborted := aborted c; phase := phase c |}.

Definition suspend (p : Phase) (c : Cycle) : Cycle :=
  {| cells := cells c; aborted := aborted c; phase := p |}.

(** [controller.abort()] *)
Definition abort (c : Cycle) : Cycle :=
  {| cells := cells c; aborted := true; phase := phase c |}.

(** The [catch] block. *)
Definition on_catch (err : Thrown.t) (c : Cycle) : Cycle :=
  if negb (bool_decide (Thrown.name err = Some "AbortError"))
  then update (setError (Some (Js.nullish (Thrown.message err) "Failed to load users"))) c
  else c.

(** The [finally] block. *)
Definition on_finally (c : Cycle) : Cycle :=
  if negb (aborted c) then update (setLoading false) c else c.

(** An exception raised inside [try]: [catch], then [finally], and the
    function returns. *)
Definition raise (err : Thrown.t) (c : Cycle) : Cycle :=
  suspend Settled (on_finally (on_catch err c)).

(** The effect body up to its first [await]. *)
Definition start (st : State) : Cycle :=
  {| cells := setError None (setLoading true st);
     aborted := false;
     phase := AwaitFetch |}.

(** What the user does with the filter controls. *)
Inductive Input :=
| SetSearch (v : string)
| SetCity (v : string)
| SetCompany (v : string)
| ClearAll.

Definition handle (i : Input) (st : State) : State :=
  match i with
  | SetSearch v => setSearch v st
  | SetCity v => setCity v st
  | SetCompany v => setCompany v st
  | ClearAll => clearAll st
  end.

(** What the host delivers to the component. *)
Inductive Event :=
| FetchFulfilled (res : Response.t)
| FetchRejected (err : Thrown.t)
| JsonFulfilled (data : list User.t)
| JsonRejected (err : Thrown.t)
| TimerFired
| Cleanup
| User (i : Input).

(** One event. A settlement resumes the function only at the [await] that
    waits for it. [Cleanup] aborts the controller; the request and the body
    read carry its signal and reject with [AbortError], the timer does not
    carry it and stays pending. *)
Definition step (c : Cycle) (ev : Event) : Cycle :=
  match ev, phase c with
  | User i, _ => update (handle i) c
  | FetchFulfilled res, AwaitFetch =>
      if negb (Response.ok res)
      then raise (Thrown.Error ("HTTP " +:+ Js.toString (Response.status res))) c
      else suspend (AwaitJson res) c
  | FetchRejected err, AwaitFetch => raise err c
  | JsonFulfilled data, AwaitJson _ => suspend (AwaitDelay data) c
  | JsonRejected err, AwaitJson _ => raise err c
  | TimerFired, AwaitDelay data =>
      suspend Settled (on_finally (update (setUsers data) c))
  | Cleanup, (AwaitFetch | AwaitJson _) => raise Thrown.AbortError (abort c)
  | Cleanup, (AwaitDelay _ | Settled) => abort c
  | _, _ => c
  end.

Definition run (c : Cycle) (evs : list Event) : Cycle := fold_left step evs c.

(** The three cells the load cycle writes. *)
Definition loaded (c : Cycle) : list User.t * bool * option string :=
  (users (cells c), loading (cells c), error (cells c)).

Definition pending (c : Cycle) : bool :=
  match phase c with
  | Settled => false
  | _ => true
  end.

(** ** Vocabulary of the specification

    The properties below are stated with these definitions, which follow
    the wording of the specification and not the code. *)

(** [sub] occurs in [s]: some text before it, some text after it. *)
Definition Substring (sub s : string) : Prop :=
  exists pre post, s = pre +:+ sub +:+ post.

(** [s] begins with [p]. *)
Definition StartsWith (p s : string) : Prop :=
  exists rest, s = p +:+ rest.

(** Lexicographic order on strings, by code unit: the empty string comes
    first, a smaller first code unit decides, equal first code units defer
    to the rest. *)
Inductive LexLe : string -> string -> Prop :=
| LexLe_empty s : LexLe "" s
| LexLe_head a b s t : (N_of_ascii a < N_of_ascii b)%N -> LexLe (String a s) (String b t)
| LexLe_tail a s t : LexLe s t -> LexLe (String a s) (String a t).

(** The three predicates of the filter engine. *)
Definition matchesName (st : State) (u : User.t) : Prop :=
  search st = ""
  \/ Substring (Js.toLowerCase (Js.trim (search st))) (Js.toLowerCase (User.name u)).

Definition matchesCity (st : State) (u : User.t) : Prop :=
  city st = "" \/ Address.city (User.address u) = city st.

Definition matchesCompany (st : State) (u : User.t) : Prop :=
  company st = "" \/ Company.name (User.company u) = company st.

(** The filter state with one dropdown set and everything else empty. *)
Definition onlyCity (c : string) (st : State) : State :=
  setCompany "" (setCity c (setSearch "" st)).

Definition onlyCompany (c : string) (st : State) : State :=
  setCompany c (setCity "" (setSearch "" st)).

(** The event [ev], delivered to [c], makes the [try] block throw [err]:
    a rejection at the [await] that waits for it, or a response whose
    status is not a success. *)
Definition throws (c : Cycle) (ev : Event) (err : Thrown.t) : Prop :=
  (phase c = AwaitFetch /\ ev = FetchRejected err)
  \/ (exists res, phase c = AwaitJson res /\ ev = JsonRejected err)
  \/ (exists res, phase c = AwaitFetch /\ ev = FetchFulfilled res
                  /\ Response.ok res = false
                  /\ err = Thrown.Error ("HTTP " +:+ Js.toString (Response.status res))).

(** ** The rest of the markup *)

(** The [disabled] attribute of the "Clear all filters" button. *)
Definition clearDisabled (st : State) : bool :=
  negb (Js.truthy (search st)) && negb (Js.truthy (city st))
  && negb (Js.truthy (company st)).

(** The [value] attributes of the [option] elements of each select: the
    fixed "All ..." entry with the empty value, then one entry per derived
    option. *)
Definition cityOptionValues (st : State) : list string := "" :: cityOptions st.

Definition companyOptionValues (st : State) : list string := "" :: companyOptions st.

(** What the screen-reader live region holds: the loading text while
    [loading], and the failure text with the message when [error] is
    truthy. *)
Inductive Announcement :=
| LoadingUsers
| FailedToFetch (msg : string).

Definition srStatus (st : State) : list Announcement :=
  (if loading st then [LoadingUsers] else [])
  ++ match error st with
     | Some m => if Js.truthy m then [FailedToFetch m] else []
     | None => []
     end.

(** ** Traces *)

(** The events of the host, as opposed to those of the user. *)
Definition isHost (ev : Event) : bool :=
  match ev with
  | User _ => false
  | _ => true
  end.

Definition hostEvents (evs : list Event) : list Event := List.filter isHost evs.

Definition inputsOf (evs : list Event) : list Input :=
  flat_map (fun ev => match ev with User i => [i] | _ => [] end) evs.

Definition handleAll (inputs : list Input) (st : State) : State :=
  fold_left (fun st i => handle i st) inputs st.

(** The three filter cells. *)
Definition filters (st : State) : string * string * string :=
  (search st, city st, company st).

(** What the load cycle reads and writes: where it is suspended, the
    signal, and its three cells. *)
Definition control (c : Cycle) : Phase * bool * (list User.t * bool * option string) :=
  (phase c, aborted c, loaded c).

(** What holds of the load cycle at every point after mount. *)
Definition cycle_inv (c : Cycle) : Prop :=
  match phase c with
  | AwaitFetch | AwaitJson _ => aborted c = false /\ loaded c = ([], true, None)
  | AwaitDelay _ => loaded c = ([], true, None)
  | Settled =>
      (error (cells c) = None \/ (users (cells c) = [] /\ loading (cells c) = false))
      /\ (loading (cells c) = true -> aborted c = true)
  end.

(** ** Sample data *)

Definition mkUser (i : Z) (n c k w : string) : User.t :=
  {| User.id := i; User.name := n; User.email := "";
     User.address := {| Address.city := c |};
     User.company := {| Company.name := k |};
     User.phone := ""; User.website := w |}.

Definition leanne : User.t :=
  mkUser 1 "Leanne Graham" "Gwenborough" "Romaguera-Crona" "hildegard.org".

Definition ervin : User.t :=
  mkUser 2 "Ervin Howell" "Wisokyburgh" "Deckow-Crist" "http://anastasia.net".

(** A record whose city and company name are the empty string. *)
Definition drifter : User.t := mkUser 3 "No Fixed Abode" "" "" "example.com".

Definition withUsers (us : list User.t) : State := setUsers us initial.

Definition ok200 : Response.t := {| Response.status := 200 |}.

(** ** Facts about the built-ins *)

Section strings.

Lemma append_cons a s t : String a s +:+ t = String a (s +:+ t).
Proof. reflexivity. Qed.

Lemma prefix_StartsWith p s : String.prefix p s = true <-> StartsWith p s.
Proof.
  unfold StartsWith. revert s. induction p as [|a p IH]; intros s.
  - destruct s; simpl; split; intros; try done; by eexists.
  - destruct s as [|b s]; simpl.
    + split; [done | by intros [r Hr]].
    + setoid_rewrite append_cons. destruct (ascii_dec a b) as [->|Hab].
      * rewrite IH. split; intros [r Hr]; exists r; congruence.
      * split; [done | intros [r Hr]; congruence].
Qed.

Lemma includes_nil sub : Js.includes "" sub = String.prefix sub "" || false.
Proof. reflexivity. Qed.

Lemma includes_cons a s sub :
  Js.includes (String a s) sub = String.prefix sub (String a s) || Js.includes s sub.
Proof. reflexivity. Qed.

Lemma includes_Substring s sub : Js.includes s sub = true <-> Substring sub s.
Proof.
  unfold Substring. induction s as [|a s IH].
  - rewrite includes_nil, orb_false_r, prefix_StartsWith. split.
    + intros [r Hr]. by exists "", r.
    + intros [pre [post H]]. destruct pre; [by exists post | done].
  - rewrite includes_cons, orb_true_iff, prefix_StartsWith, IH. split.
    + intros [[r Hr]|[pre [post H]]].
      * by exists "", r.
      * exists (String a pre), post. by rewrite append_cons, H.
    + intros [pre [post H]]. destruct pre as [|b pre].
      * left. by exists post.
      * right. rewrite append_cons in H. exists pre, post. congruence.
Qed.

Lemma includes_empty s : Js.includes s "" = true.
Proof. apply includes_Substring. by exists "", s. Qed.

Lemma truthy_true s : Js.truthy s = true <-> s <> "".
Proof.
  unfold Js.truthy. rewrite negb_true_iff. apply String.eqb_neq.
Qed.

Lemma truthy_false s : Js.truthy s = false <-> s = "".
Proof.
  unfold Js.truthy. rewrite negb_false_iff. apply String.eqb_eq.
Qed.

Lemma isWhiteSpace_toLowerCaseUnit a :
  Js.isWhiteSpace (Js.toLowerCaseUnit a) = Js.isWhiteSpace a.
Proof. by destruct a as [[] [] [] [] [] [] [] []]. Qed.

Lemma trimStart_toLowerCase s :
  Js.trimStart (Js.toLowerCase s) = Js.toLowerCase (Js.trimStart s).
Proof.
  induction s as [|a s IH]; [done|]. simpl.
  rewrite isWhiteSpace_toLowerCaseUnit. by destruct (Js.isWhiteSpace a).
Qed.

Lemma trimEnd_toLowerCase s :
  Js.trimEnd (Js.toLowerCase s) = Js.toLowerCase (Js.trimEnd s).
Proof.
  induction s as [|a s IH]; [done|]. simpl.
  rewrite IH, isWhiteSpace_toLowerCaseUnit.
  destruct (Js.trimEnd s); simpl; [|done]. by destruct (Js.isWhiteSpace a).
Qed.

(** Trimming and lower-casing commute, so "the lower-cased, trimmed query"
    reads the same in either order. *)
Lemma trim_toLowerCase s : Js.trim (Js.toLowerCase s) = Js.toLowerCase (Js.trim s).
Proof. unfold Js.trim. by rewrite trimStart_toLowerCase, trimEnd_toLowerCase. Qed.

End strings.

Section sorting.

Lemma ascii_compare_N a b :
  Ascii.compare a b = (N_of_ascii a ?= N_of_ascii b)%N.
Proof. reflexivity. Qed.

Lemma N_of_ascii_inj a b : N_of_ascii a = N_of_ascii b -> a = b.
Proof.
  intros H. rewrite <- (ascii_N_embedding a), <- (ascii_N_embedding b).
  by rewrite H.
Qed.

(** The comparison of the default sort is the lexicographic order. *)
Lemma str_le_LexLe a b : Js.str_le a b <-> LexLe a b.
Proof.
  unfold Js.str_le, String.leb. revert b.
  induction a as [|x a IH]; intros [|y b]; simpl.
  - split; [constructor | done].
  - split; [constructor | done].
  - split; [done | inversion 1].
  - rewrite ascii_compare_N.
    destruct (N.compare_spec (N_of_ascii x) (N_of_ascii y)) as [Hxy|Hxy|Hxy].
    + apply N_of_ascii_inj in Hxy as ->. rewrite IH. split.
      * by constructor.
      * inversion 1; subst; [lia | done].
    + split; [by constructor | done].
    + split; [done|]. inversion 1; subst; lia.
Qed.

Lemma StronglySorted_impl {A} (R R' : relation A) (l : list A) :
  (forall x y, R x y -> R' x y) -> StronglySorted R l -> StronglySorted R' l.
Proof.
  intros HR. induction 1 as [|x l Hl IH Hx]; constructor; [done|].
  eapply Forall_impl; [exact Hx | by intros y; apply HR].
Qed.

Lemma string_compare_trans_Gt a b c :
  String.compare a b <> Gt -> String.compare b c <> Gt ->
  String.compare a c <> Gt.
Proof.
  revert b c. induction a as [|x a IH]; intros [|y b] [|z c]; simpl; try done.
  rewrite !ascii_compare_N.
  destruct (N.compare_spec (N_of_ascii x) (N_of_ascii y)) as [Hxy|Hxy|Hxy];
    destruct (N.compare_spec (N_of_ascii y) (N_of_ascii z)) as [Hyz|Hyz|Hyz];
    try done; intros H1 H2.
  - rewrite Hxy, Hyz, N.compare_refl. by apply (IH b c).
  - rewrite Hxy. by apply N.compare_lt_iff in Hyz as ->.
  - rewrite <- Hyz. by apply N.compare_lt_iff in Hxy as ->.
  - assert (N_of_ascii x < N_of_ascii z)%N as Hxz by lia.
    by apply N.compare_lt_iff in Hxz as ->.
Qed.

Lemma str_le_compare a b : Js.str_le a b <-> String.compare a b <> Gt.
Proof.
  unfold Js.str_le, String.leb. destruct (String.compare a b); split; done.
Qed.

#[global] Instance str_le_trans : Transitive Js.str_le.
Proof.
  intros a b c. rewrite !str_le_compare. apply string_compare_trans_Gt.
Qed.

#[global] Instance str_le_total : Total Js.str_le.
Proof. intros a b. apply String.leb_total. Qed.

#[global] Instance str_le_antisym : AntiSymm (=) Js.str_le.
Proof. intros a b. apply String.leb_antisym. Qed.

Lemma sort_Permutation xs : Js.sort xs ≡ₚ xs.
Proof. apply merge_sort_Permutation. Qed.

Lemma sort_StronglySorted xs : StronglySorted Js.str_le (Js.sort xs).
Proof. apply StronglySorted_merge_sort; apply _. Qed.

(** The sorting algorithm is immaterial: an ascending arrangement of the
    same values is the one [sort] returns. *)
Lemma sort_unique xs ys :
  ys ≡ₚ xs -> Sorted Js.str_le ys -> ys = Js.sort xs.
Proof.
  intros Hp Hs. apply (Sorted_unique Js.str_le); [done | | ].
  - apply Sorted_merge_sort, _.
  - by rewrite Hp, sort_Permutation.
Qed.

Lemma set_add_all_elem seen xs x :
  x ∈ Js.set_add_all seen xs <-> x ∈ seen \/ x ∈ xs.
Proof.
  revert seen. induction xs as [|y xs IH]; intros seen; simpl.
  - rewrite elem_of_nil. tauto.
  - rewrite IH, elem_of_cons. case_bool_decide as Hy.
    + split; [tauto|]. intros [?|[->|?]]; tauto.
    + rewrite elem_of_app, list_elem_of_singleton. tauto.
Qed.

Lemma set_add_all_NoDup seen xs : NoDup seen -> NoDup (Js.set_add_all seen xs).
Proof.
  revert seen. induction xs as [|y xs IH]; intros seen Hnd; simpl; [done|].
  apply IH. case_bool_decide as Hy; [done|].
  apply NoDup_app. split_and!; [done | | apply NoDup_singleton].
  intros z Hz Hz'. apply list_elem_of_singleton in Hz' as ->. done.
Qed.

Lemma array_from_set_elem xs x : x ∈ Js.array_from_set xs <-> x ∈ xs.
Proof.
  unfold Js.array_from_set. rewrite set_add_all_elem, elem_of_nil. tauto.
Qed.

Lemma array_from_set_NoDup xs : NoDup (Js.array_from_set xs).
Proof. apply set_add_all_NoDup, NoDup_nil_2. Qed.

(** Options are derived by the same pipeline from a projection of the
    records. *)
Lemma options_spec (xs : list string) :
  NoDup (Js.sort (Js.array_from_set xs))
  /\ (forall x, x ∈ Js.sort (Js.array_from_set xs) <-> x ∈ xs)
  /\ StronglySorted LexLe (Js.sort (Js.array_from_set xs)).
Proof.
  split_and!.
  - rewrite sort_Permutation. apply array_from_set_NoDup.
  - intros x. rewrite sort_Permutation. apply array_from_set_elem.
  - eapply StronglySorted_impl; [|apply sort_StronglySorted].
    intros x y. apply str_le_LexLe.
Qed.

End sorting.

(** ** The filter engine *)

Section filter_engine.

Implicit Types (st : State) (u : User.t).

Lemma trim_lower_empty : Js.toLowerCase (Js.trim "") = "".
Proof. reflexivity. Qed.

Lemma byName_spec st u :
  (if Js.truthy (Js.toLowerCase (Js.trim (search st)))
   then Js.includes (Js.toLowerCase (User.name u)) (Js.toLowerCase (Js.trim (search st)))
   else true) = true
  <-> matchesName st u.
Proof.
  unfold matchesName.
  destruct (Js.truthy _) eqn:Hs.
  - rewrite includes_Substring. split; [by right|].
    intros [Hq|H]; [|done].
    rewrite Hq, trim_lower_empty in Hs. done.
  - apply truthy_false in Hs. rewrite Hs. split; [|done].
    intros _. right. apply includes_Substring, includes_empty.
Qed.

Lemma exact_spec (sel x : string) :
  (if Js.truthy sel then String.eqb x sel else true) = true
  <-> sel = "" \/ x = sel.
Proof.
  destruct (Js.truthy sel) eqn:Hs.
  - apply truthy_true in Hs. rewrite String.eqb_eq. tauto.
  - apply truthy_false in Hs. tauto.
Qed.

Lemma keep_spec st u :
  keep (Js.toLowerCase (Js.trim (search st))) st u = true
  <-> matchesName st u /\ matchesCity st u /\ matchesCompany st u.
Proof.
  unfold keep, matchesCity, matchesCompany.
  rewrite !andb_true_iff, byName_spec, !exact_spec. tauto.
Qed.

Lemma keep_cleared s st u :
  s = "" -> city st = "" -> company st = "" -> keep s st u = true.
Proof. intros -> Hc Hk. unfold keep. by rewrite Hc, Hk. Qed.

Lemma filter_all {A} (f : A -> bool) (l : list A) :
  (forall x, f x = true) -> List.filter f l = l.
Proof.
  intros Hf. induction l as [|x l IH]; simpl; [done|].
  by rewrite Hf, IH.
Qed.

Lemma filter_sublist {A} (f : A -> bool) (l : list A) :
  List.filter f l `sublist_of` l.
Proof.
  induction l as [|x l IH]; simpl.
  - constructor.
  - destruct (f x); by constructor.
Qed.

(** C1. A record is in [filteredUsers] exactly when it is in the source
    collection and satisfies the three predicates: the search text is
    empty or the lower-cased name contains the trimmed, lower-cased
    search text; the selected city is empty or equals the record's city;
    the selected company is empty or equals the record's company name. *)
Theorem filteredUsers_iff st u :
  u ∈ filteredUsers st
  <-> u ∈ users st /\ matchesName st u /\ matchesCity st u /\ matchesCompany st u.
Proof.
  unfold filteredUsers.
  rewrite !list_elem_of_In, List.filter_In, keep_spec. tauto.
Qed.

(** The scenarios of the specification. *)
Example search_is_case_insensitive :
  let janes := [mkUser 1 "Jane Doe" "" "" ""; mkUser 2 "JANE SMITH" "" "" "";
                mkUser 3 "John Doe" "" "" ""] in
  filteredUsers (setSearch "jane" (withUsers janes))
  = [mkUser 1 "Jane Doe" "" "" ""; mkUser 2 "JANE SMITH" "" "" ""].
Proof. reflexivity. Qed.

Example search_is_trimmed :
  filteredUsers (setSearch "  ERVIN " (withUsers [leanne; ervin])) = [ervin].
Proof. reflexivity. Qed.

Example city_scenario :
  let st := setLoading false (setCity "Gwenborough" (withUsers [leanne; ervin])) in
  filteredUsers st = [leanne] /\ count (render st) = (1, 2)%nat.
Proof. by split. Qed.

Example options_scenario :
  cityOptions (withUsers [ervin; leanne; ervin; drifter])
  = [""; "Gwenborough"; "Wisokyburgh"].
Proof. reflexivity. Qed.

(** C5. [clearAll] empties the three filters, and after it, whatever the
    filters were, [filteredUsers] is the whole source collection. *)
Theorem clearAll_shows_all st :
  search (clearAll st) = "" /\ city (clearAll st) = "" /\ company (clearAll st) = ""
  /\ filteredUsers (clearAll st) = users st.
Proof.
  split_and!; try done.
  unfold filteredUsers. apply filter_all. intros u. by apply keep_cleared.
Qed.

(** C6. [filteredUsers] is a subsequence of the source collection: the
    records kept appear in the order of the source, and every one of them
    is a record of the source. *)
Theorem filteredUsers_sublist st :
  filteredUsers st `sublist_of` users st
  /\ (forall u, u ∈ filteredUsers st -> u ∈ users st).
Proof.
  assert (filteredUsers st `sublist_of` users st) as H
    by apply filter_sublist.
  split; [done|]. intros u Hu. by eapply elem_of_sublist.
Qed.

Lemma eqb_bool_decide (x y : string) : String.eqb x y = bool_decide (x = y).
Proof.
  destruct (String.eqb_spec x y).
  - by rewrite bool_decide_eq_true_2.
  - by rewrite bool_decide_eq_false_2.
Qed.

Lemma keep_onlyCity c st u :
  c <> "" ->
  keep (Js.toLowerCase (Js.trim (search (onlyCity c st)))) (onlyCity c st) u
  = bool_decide (Address.city (User.address u) = c).
Proof.
  intros Hc. apply truthy_true in Hc. unfold keep. simpl. rewrite Hc.
  rewrite andb_true_r. apply eqb_bool_decide.
Qed.

Lemma keep_onlyCompany c st u :
  c <> "" ->
  keep (Js.toLowerCase (Js.trim (search (onlyCompany c st)))) (onlyCompany c st) u
  = bool_decide (Company.name (User.company u) = c).
Proof.
  intros Hc. apply truthy_true in Hc. unfold keep. simpl. rewrite Hc.
  apply eqb_bool_decide.
Qed.

Lemma filter_witness {A} (f : A -> bool) (l : list A) x :
  x ∈ l -> f x = true -> List.filter f l <> [].
Proof.
  intros Hx Hf Hnil.
  assert (In x (List.filter f l)) as Hin
    by (apply List.filter_In; split; [by apply list_elem_of_In | done]).
  by rewrite Hnil in Hin.
Qed.

Lemma cityOptions_elem st c :
  c ∈ cityOptions st
  <-> exists u, u ∈ users st /\ Address.city (User.address u) = c.
Proof.
  unfold cityOptions.
  destruct (options_spec (map (fun u => Address.city (User.address u)) (users st)))
    as (_ & -> & _).
  rewrite list_elem_of_fmap.
  split; intros (u & H1 & H2); exists u; by split.
Qed.

Lemma companyOptions_elem st c :
  c ∈ companyOptions st
  <-> exists u, u ∈ users st /\ Company.name (User.company u) = c.
Proof.
  unfold companyOptions.
  destruct (options_spec (map (fun u => Company.name (User.company u)) (users st)))
    as (_ & -> & _).
  rewrite list_elem_of_fmap.
  split; intros (u & H1 & H2); exists u; by split.
Qed.

(** C4. [cityOptions] and [companyOptions] have no duplicates, hold
    exactly the city values (company names) that occur in the source
    collection, are in ascending lexicographic order, and depend on the
    source collection alone. *)
Theorem options_distinct_sorted st :
  (NoDup (cityOptions st)
   /\ (forall c, c ∈ cityOptions st
                 <-> exists u, u ∈ users st /\ Address.city (User.address u) = c)
   /\ StronglySorted LexLe (cityOptions st))
  /\ (NoDup (companyOptions st)
      /\ (forall c, c ∈ companyOptions st
                    <-> exists u, u ∈ users st /\ Company.name (User.company u) = c)
      /\ StronglySorted LexLe (companyOptions st))
  /\ (forall st', users st' = users st ->
                  cityOptions st' = cityOptions st
                  /\ companyOptions st' = companyOptions st).
Proof.
  split_and!.
  - apply options_spec.
  - apply cityOptions_elem.
  - apply options_spec.
  - apply options_spec.
  - apply companyOptions_elem.
  - apply options_spec.
  - intros st' H. unfold cityOptions, companyOptions. by rewrite H.
Qed.

(** C9, as written, fails for the option [""]: with a record whose city
    is empty in the source, the empty string is one of the city options,
    and selecting it keeps every record, not only those whose city is
    empty. *)
Lemma empty_city_option_keeps_all :
  "" ∈ cityOptions (withUsers [drifter; leanne])
  /\ filteredUsers (onlyCity "" (withUsers [drifter; leanne])) = [drifter; leanne]
  /\ List.filter (fun u => bool_decide (Address.city (User.address u) = ""))
       (users (withUsers [drifter; leanne])) = [drifter].
Proof.
  split_and!; [|reflexivity|reflexivity].
  apply cityOptions_elem. exists drifter. split; [|done]. apply list_elem_of_here.
Qed.

(** C9 (amended). For every value [c] of [cityOptions], filtering with
    [c] as the selected city and the other two filters empty gives a
    non-empty list; when [c] is not the empty string that list is the
    records of the source whose city is [c], in their order, and when [c]
    is the empty string it is the whole source. Likewise for
    [companyOptions] and the selected company. *)
Theorem option_selects_its_records st c :
  (c ∈ cityOptions st ->
   filteredUsers (onlyCity c st) <> []
   /\ (c <> "" ->
       filteredUsers (onlyCity c st)
       = List.filter (fun u => bool_decide (Address.city (User.address u) = c)) (users st))
   /\ (c = "" -> filteredUsers (onlyCity c st) = users st))
  /\ (c ∈ companyOptions st ->
      filteredUsers (onlyCompany c st) <> []
      /\ (c <> "" ->
          filteredUsers (onlyCompany c st)
          = List.filter (fun u => bool_decide (Company.name (User.company u) = c)) (users st))
      /\ (c = "" -> filteredUsers (onlyCompany c st) = users st)).
Proof.
  split.
  - intros (u & Hu & Hcity)%cityOptions_elem.
    assert (c <> "" ->
            filteredUsers (onlyCity c st)
            = List.filter (fun u => bool_decide (Address.city (User.address u) = c)) (users st))
      as Hsome by (intros Hc; apply List.filter_ext; intros v; by apply keep_onlyCity).
    assert (c = "" -> filteredUsers (onlyCity c st) = users st) as Hnone
      by (intros ->; apply filter_all; intros v; by apply keep_cleared).
    split_and!; [|done|done].
    destruct (decide (c = "")) as [Hc|Hc].
    + rewrite (Hnone Hc). intros Hnil. rewrite Hnil in Hu. by apply elem_of_nil in Hu.
    + rewrite (Hsome Hc). apply (filter_witness _ _ u); [done|]. by apply bool_decide_eq_true.
  - intros (u & Hu & Hname)%companyOptions_elem.
    assert (c <> "" ->
            filteredUsers (onlyCompany c st)
            = List.filter (fun u => bool_decide (Company.name (User.company u) = c)) (users st))
      as Hsome by (intros Hc; apply List.filter_ext; intros v; by apply keep_onlyCompany).
    assert (c = "" -> filteredUsers (onlyCompany c st) = users st) as Hnone
      by (intros ->; apply filter_all; intros v; by apply keep_cleared).
    split_and!; [|done|done].
    destruct (decide (c = "")) as [Hc|Hc].
    + rewrite (Hnone Hc). intros Hnil. rewrite Hnil in Hu. by apply elem_of_nil in Hu.
    + rewrite (Hsome Hc). apply (filter_witness _ _ u); [done|]. by apply bool_decide_eq_true.
Qed.

Lemma option_selects_its_records_witness :
  "Gwenborough" ∈ cityOptions (withUsers [leanne; ervin])
  /\ "Gwenborough" <> ""
  /\ filteredUsers (onlyCity "Gwenborough" (withUsers [leanne; ervin])) = [leanne].
Proof.
  assert ("Gwenborough" <> "") as Hne by done.
  assert ("Gwenborough" ∈ cityOptions (withUsers [leanne; ervin])) as Hin
    by (apply cityOptions_elem; exists leanne; split; [apply list_elem_of_here | done]).
  split_and!; [done | done |].
  destruct (option_selects_its_records (withUsers [leanne; ervin]) "Gwenborough")
    as [Hcity _].
  destruct (Hcity Hin) as (_ & Heq & _). rewrite (Heq Hne). reflexivity.
Defined.

(** C8. The link target is the website itself when it starts with
    "http", and "https://" followed by the website otherwise. *)
Theorem site_spec u :
  (StartsWith "http" (User.website u) -> site u = User.website u)
  /\ (~ StartsWith "http" (User.website u) -> site u = "https://" +:+ User.website u).
Proof.
  unfold site, Js.startsWith.
  destruct (String.prefix "http" (User.website u)) eqn:Hp.
  - split; [done|]. intros Hn. by apply prefix_StartsWith in Hp.
  - split; [|done]. intros Hs%prefix_StartsWith. congruence.
Qed.

End filter_engine.

(** ** Rendering *)

Section rendering.

Implicit Types (st : State).

Lemma length_zero_iff_nil {A} (l : list A) : (length l =? 0)%nat = true <-> l = [].
Proof. rewrite Nat.eqb_eq. by destruct l. Qed.

Lemma length_pos_iff {A} (l : list A) : (0 <? length l)%nat = true <-> l <> [].
Proof. rewrite Nat.ltb_lt. destruct l; simpl; split; (done || lia). Qed.

(** The "no results" block is rendered exactly under the four conditions
    of its guard. *)
Lemma noResults_iff st :
  noResults (render st) = true
  <-> loading st = false /\ Js.truthy_opt (error st) = false
      /\ users st <> [] /\ filteredUsers st = [].
Proof.
  unfold render; simpl.
  rewrite !andb_true_iff, !negb_true_iff, length_pos_iff, length_zero_iff_nil.
  tauto.
Qed.

(** C7, as written, fails for an empty source collection: after a
    successful load of [[]], with [loading] false and no error, nothing
    matches and yet the "no results" block is not rendered. *)
Lemma empty_source_hides_noResults :
  let st := cells (run (start initial) [FetchFulfilled ok200; JsonFulfilled []; TimerFired]) in
  loading st = false /\ error st = None /\ filteredUsers st = []
  /\ noResults (render st) = false.
Proof. by split_and!. Qed.

(** C7 (amended). With [loading] false and no error, when the source
    collection is not empty and filtering leaves no record, the "no
    results" block is rendered and the error block is not. *)
Theorem noResults_shown st :
  loading st = false -> error st = None -> users st <> [] ->
  filteredUsers st = [] ->
  noResults (render st) = true /\ alert (render st) = None.
Proof.
  intros Hl He Hu Hf. split.
  - apply noResults_iff. by rewrite He.
  - unfold render; simpl. by rewrite He.
Qed.

Lemma noResults_shown_witness :
  loading (setSearch "xyz" (setLoading false (withUsers [leanne; ervin]))) = false
  /\ error (setSearch "xyz" (setLoading false (withUsers [leanne; ervin]))) = None
  /\ users (setSearch "xyz" (setLoading false (withUsers [leanne; ervin]))) <> []
  /\ filteredUsers (setSearch "xyz" (setLoading false (withUsers [leanne; ervin]))) = []
  /\ noResults (render (setSearch "xyz" (setLoading false (withUsers [leanne; ervin])))) = true
  /\ alert (render (setSearch "xyz" (setLoading false (withUsers [leanne; ervin])))) = None.
Proof.
  pose proof (noResults_shown (setSearch "xyz" (setLoading false (withUsers [leanne; ervin]))))
    as Hshown.
  split; [reflexivity|]. split; [reflexivity|]. split; [discriminate|].
  split; [reflexivity|].
  apply Hshown; [reflexivity | reflexivity | discriminate | reflexivity].
Defined.

End rendering.

(** ** The load cycle *)

Section load_cycle.

Implicit Types (c : Cycle) (ev : Event) (err : Thrown.t).

Lemma handle_loaded i c : loaded (update (handle i) c) = loaded c.
Proof. by destruct i. Qed.

(** Once the function has returned, no event writes [users], [loading]
    or [error]. *)
Lemma settled_step c ev :
  phase c = Settled ->
  phase (step c ev) = Settled /\ loaded (step c ev) = loaded c.
Proof.
  intros Hp. destruct ev; unfold step; rewrite ?Hp; try done.
  split; [done | apply handle_loaded].
Qed.

Lemma run_cons c ev evs : run c (ev :: evs) = run (step c ev) evs.
Proof. reflexivity. Qed.

Lemma settled_run c evs :
  phase c = Settled ->
  phase (run c evs) = Settled /\ loaded (run c evs) = loaded c.
Proof.
  revert c. induction evs as [|ev evs IH]; intros c Hp; [done|].
  destruct (settled_step c ev Hp) as [Hp' Hl]. rewrite run_cons.
  destruct (IH _ Hp') as [? ?]. split; congruence.
Qed.

(** Filter input while the request is in flight leaves the load cycle
    where it is. *)
Lemma inputs_run c (inputs : list Input) :
  phase (run c (map User inputs)) = phase c
  /\ aborted (run c (map User inputs)) = aborted c
  /\ loaded (run c (map User inputs)) = loaded c.
Proof.
  revert c. induction inputs as [|i inputs IH]; intros c; [done|].
  rewrite map_cons, run_cons. destruct (IH (step c (User i))) as (-> & -> & ->).
  split_and!; try done. apply handle_loaded.
Qed.

Lemma run_app c evs1 evs2 : run c (evs1 ++ evs2) = run (run c evs1) evs2.
Proof. apply fold_left_app. Qed.

Lemma raise_loaded err c :
  phase (raise err c) = Settled
  /\ users (cells (raise err c)) = users (cells c)
  /\ loading (cells (raise err c)) = (if aborted c then loading (cells c) else false)
  /\ error (cells (raise err c))
     = if bool_decide (Thrown.name err = Some "AbortError")
       then error (cells c)
       else Some (Js.nullish (Thrown.message err) "Failed to load users").
Proof.
  unfold raise, on_finally, on_catch.
  case_bool_decide; simpl; destruct (aborted c); done.
Qed.

Lemma loaded_inv c c' :
  loaded c = loaded c' ->
  users (cells c) = users (cells c')
  /\ loading (cells c) = loading (cells c')
  /\ error (cells c) = error (cells c').
Proof. unfold loaded. intros [= -> -> ->]. done. Qed.

Lemma no_users_no_matches st : users st = [] -> filteredUsers st = [].
Proof. intros H. unfold filteredUsers. by rewrite H. Qed.

(** C3. A response with a non-success status, received while the request
    is pending, ends the load cycle with the error message "HTTP "
    followed by the status in decimal and with [loading] false; the
    source collection, and so the filtered one, stays empty, whatever
    happens afterwards. *)
Theorem http_status_fails (inputs : list Input) res evs :
  Response.ok res = false ->
  let c := run (start initial) (map User inputs ++ FetchFulfilled res :: evs) in
  error (cells c) = Some ("HTTP " +:+ Js.toString (Response.status res))
  /\ loading (cells c) = false
  /\ users (cells c) = []
  /\ filteredUsers (cells c) = [].
Proof.
  intros Hok c. subst c. rewrite run_app, run_cons.
  destruct (inputs_run (start initial) inputs) as (Hp & Ha & Hl).
  set (c0 := run (start initial) (map User inputs)) in *.
  apply loaded_inv in Hl as (Hu & Hld & He).
  assert (step c0 (FetchFulfilled res)
          = raise (Thrown.Error ("HTTP " +:+ Js.toString (Response.status res))) c0) as ->
    by (unfold step; by rewrite Hp, Hok).
  set (c1 := raise _ c0).
  destruct (raise_loaded (Thrown.Error ("HTTP " +:+ Js.toString (Response.status res))) c0)
    as (Hp1 & Hu1 & Hl1 & He1).
  fold c1 in Hp1, Hu1, Hl1, He1.
  destruct (settled_run c1 evs Hp1) as [_ (Hu2 & Hl2 & He2)%loaded_inv].
  assert (users (cells (run c1 evs)) = []) as Hnil by (by rewrite Hu2, Hu1, Hu).
  split_and!.
  - by rewrite He2, He1.
  - by rewrite Hl2, Hl1, Ha.
  - done.
  - by apply no_users_no_matches.
Qed.

Lemma http_status_fails_witness :
  Response.ok {| Response.status := 500 |} = false
  /\ error (cells (run (start initial) [FetchFulfilled {| Response.status := 500 |}]))
     = Some "HTTP 500".
Proof.
  split; [reflexivity|].
  apply (http_status_fails [] {| Response.status := 500 |} []). reflexivity.
Defined.

(** C10. When the load fails with an exception that is not an
    [AbortError] (a rejected request, a rejected body read, or the error
    thrown for a non-success status), the error message is the exception's
    own message when it has one, and "Failed to load users" when it has
    none; the message stays whatever happens afterwards. *)
Theorem failure_message c ev err evs :
  throws c ev err -> Thrown.name err <> Some "AbortError" ->
  (Thrown.message err = None ->
   error (cells (run c (ev :: evs))) = Some "Failed to load users")
  /\ (forall m, Thrown.message err = Some m ->
                error (cells (run c (ev :: evs))) = Some m).
Proof.
  intros Hthrow Hname. rewrite run_cons.
  assert (step c ev = raise err c) as ->.
  { destruct Hthrow as [[Hp ->]|[(res & Hp & ->)|(res & Hp & -> & Hok & ->)]];
      unfold step; by rewrite Hp, ?Hok. }
  destruct (raise_loaded err c) as (Hp & _ & _ & He).
  rewrite bool_decide_eq_false_2 in He by done.
  destruct (settled_run (raise err c) evs Hp) as [_ (_ & _ & He')%loaded_inv].
  rewrite He', He. split.
  - by intros ->.
  - by intros m ->.
Qed.

Lemma failure_message_witness :
  throws (start initial) (FetchRejected Thrown.Nullish) Thrown.Nullish
  /\ Thrown.name Thrown.Nullish <> Some "AbortError"
  /\ error (cells (run (start initial) [FetchRejected Thrown.Nullish]))
     = Some "Failed to load users".
Proof.
  assert (throws (start initial) (FetchRejected Thrown.Nullish) Thrown.Nullish) as Hthrow
    by (left; split; reflexivity).
  assert (Thrown.name Thrown.Nullish <> Some "AbortError") as Hname by done.
  split_and!; [done | done |].
  destruct (failure_message (start initial) _ Thrown.Nullish [] Hthrow Hname) as [H _].
  by apply H.
Defined.

(** A rejection that carries a message: a network failure as the browser
    reports it. *)
Example network_error_surfaced :
  error (cells (run (start initial)
                  [FetchRejected (Thrown.Obj (Some "TypeError") (Some "Failed to fetch"))]))
  = Some "Failed to fetch".
Proof. reflexivity. Qed.

(** X4. Cleanup while the request or the body read is pending: nothing is
    written, then or later. *)
Lemma abort_during_request_silent c evs :
  (phase c = AwaitFetch \/ exists res, phase c = AwaitJson res) ->
  loaded (run c (Cleanup :: evs)) = loaded c.
Proof.
  intros Hp. rewrite run_cons.
  assert (step c Cleanup = raise Thrown.AbortError (abort c)) as ->
    by (destruct Hp as [Hp|[res Hp]]; unfold step; by rewrite Hp).
  destruct (raise_loaded Thrown.AbortError (abort c)) as (Hs & Hu & Hl & He).
  destruct (settled_run _ evs Hs) as [_ ->].
  unfold loaded. by rewrite Hu, Hl, He.
Qed.

(** After cleanup, no event sets the error message or clears the loading
    flag. *)
Lemma aborted_step c ev :
  aborted c = true -> (phase c = Settled \/ exists data, phase c = AwaitDelay data) ->
  aborted (step c ev) = true
  /\ (phase (step c ev) = Settled \/ exists data, phase (step c ev) = AwaitDelay data)
  /\ loading (cells (step c ev)) = loading (cells c)
  /\ error (cells (step c ev)) = error (cells c).
Proof.
  intros Ha [Hp|[data Hp]]; destruct ev as [| | | | | |i]; unfold step;
    rewrite ?Hp; unfold on_finally; simpl; rewrite ?Ha; simpl;
    try (split_and!; (done || (by left) || (by right; eexists)));
    destruct i; split_and!; (done || (by left) || (by right; eexists)).
Qed.

Lemma aborted_run c evs :
  aborted c = true -> (phase c = Settled \/ exists data, phase c = AwaitDelay data) ->
  loading (cells (run c evs)) = loading (cells c)
  /\ error (cells (run c evs)) = error (cells c).
Proof.
  revert c. induction evs as [|ev evs IH]; intros c Ha Hp; [done|].
  rewrite run_cons. destruct (aborted_step c ev Ha Hp) as (Ha' & Hp' & Hl & He).
  destruct (IH _ Ha' Hp') as [-> ->]. done.
Qed.

(** X5. Cleanup while the timer is pending: the error message is never set
    and the loading flag is never cleared. *)
Lemma abort_during_delay_quiet c data evs :
  phase c = AwaitDelay data ->
  loading (cells (run c (Cleanup :: evs))) = loading (cells c)
  /\ error (cells (run c (Cleanup :: evs))) = error (cells c).
Proof.
  intros Hp. rewrite run_cons.
  assert (step c Cleanup = abort c) as -> by (unfold step; by rewrite Hp).
  apply (aborted_run (abort c) evs); [done | right; by exists data].
Qed.

(** Cleanup during the delay and then the timer: the fetched collection
    is stored all the same. *)
Lemma abort_during_delay_then_timer c data :
  phase c = AwaitDelay data ->
  users (cells (run c [Cleanup; TimerFired])) = data.
Proof.
  intros Hp. unfold run, fold_left.
  assert (step c Cleanup = abort c) as -> by (unfold step; by rewrite Hp).
  unfold step. simpl. by rewrite Hp.
Qed.

(** C2. Cleanup during the delay does not cancel the timer, and the
    continuation stores the fetched collection without consulting the
    signal: after a successful fetch of two records, cleanup and then
    the timer leave [users] holding the two records (with [loading]
    still true and no error). *)
Theorem abort_during_delay_stores_users :
  let waiting := run (start initial) [FetchFulfilled ok200; JsonFulfilled [leanne; ervin]] in
  let torn := run waiting [Cleanup; TimerFired] in
  pending waiting = true
  /\ phase waiting = AwaitDelay [leanne; ervin]
  /\ loaded waiting = ([], true, None)
  /\ aborted (step waiting Cleanup) = true
  /\ loaded torn = ([leanne; ervin], true, None).
Proof. by split_and!. Qed.

End load_cycle.

(** ** The load cycle and the filter controls together *)

Section traces.

Implicit Types (c : Cycle) (ev : Event) (st : State).

Lemma state_eq st st' :
  (users st, loading st, error st) = (users st', loading st', error st') ->
  filters st = filters st' -> st = st'.
Proof.
  destruct st, st'. unfold filters. simpl. by intros [= -> -> ->] [= -> -> ->].
Qed.

Lemma handle_filters i st st' :
  filters st = filters st' -> filters (handle i st) = filters (handle i st').
Proof. unfold filters. intros [= H1 H2 H3]. destruct i; simpl; congruence. Qed.

Lemma handleAll_error inputs st : error (handleAll inputs st) = error st.
Proof.
  revert st. induction inputs as [|i inputs IH]; intros st; [done|].
  unfold handleAll in *. simpl. rewrite IH. by destruct i.
Qed.

Lemma step_host_filters c ev :
  isHost ev = true -> filters (cells (step c ev)) = filters (cells c).
Proof.
  intros Hh. destruct c as [st a p].
  destruct ev, p, a; try done; unfold step, raise, on_finally, on_catch, update; simpl;
    try done; try (by destruct (Response.ok res)); by case_bool_decide.
Qed.

Lemma step_control c c' ev :
  control c = control c' -> control (step c ev) = control (step c' ev).
Proof.
  destruct c as [[u l e s ci co] a p], c' as [[u' l' e' s' ci' co'] a' p'].
  unfold control, loaded. simpl. intros [= -> -> -> -> ->].
  destruct ev as [res|err|data|err| | |i].
  1-6: destruct p', a'; unfold step, raise, on_finally, on_catch, update; simpl;
    try done; try (by destruct (Response.ok res)); by case_bool_decide.
  by destruct i.
Qed.

Lemma step_user_control c i : control (step c (User i)) = control c.
Proof. unfold control. unfold step. by rewrite handle_loaded. Qed.

Lemma run_control c c' evs :
  control c = control c' -> control (run c evs) = control (run c' (hostEvents evs)).
Proof.
  revert c c'. induction evs as [|ev evs IH]; intros c c' Hc; [done|].
  rewrite run_cons. unfold hostEvents. simpl. destruct (isHost ev) eqn:Hh.
  - rewrite run_cons. by apply IH, step_control.
  - destruct ev; try done. apply IH. by rewrite step_user_control.
Qed.

Lemma run_filters c st evs :
  filters (cells c) = filters st ->
  filters (cells (run c evs)) = filters (handleAll (inputsOf evs) st).
Proof.
  revert c st. induction evs as [|ev evs IH]; intros c st Hf; [done|].
  rewrite run_cons. destruct (isHost ev) eqn:Hh.
  - assert (inputsOf (ev :: evs) = inputsOf evs) as -> by (by destruct ev).
    apply IH. by rewrite step_host_filters.
  - destruct ev as [| | | | | |i]; try done.
    change (inputsOf (User i :: evs)) with (i :: inputsOf evs).
    change (handleAll (i :: inputsOf evs) st) with (handleAll (inputsOf evs) (handle i st)).
    apply IH. unfold step. simpl. by apply handle_filters.
Qed.

(** X1. The load cycle and the filter controls do not interfere: the phase,
    the signal and the cells [users], [loading], [error] after a trace are
    those after its host events alone, and the filter cells are those the
    user's inputs alone produce. *)
Theorem load_and_filters_independent c evs :
  control (run c evs) = control (run c (hostEvents evs))
  /\ filters (cells (run c evs)) = filters (handleAll (inputsOf evs) (cells c)).
Proof. split; [by apply run_control | by apply run_filters]. Qed.

(** X2. A successful load, whatever the user types or selects meanwhile: the
    fetched collection is stored, [loading] is cleared, no error is set,
    and the filters are those the user entered, so that the filtered list
    is the fetched collection under those filters. *)
Theorem load_succeeds evs res data :
  Response.ok res = true ->
  hostEvents evs = [FetchFulfilled res; JsonFulfilled data; TimerFired] ->
  cells (run (start initial) evs)
  = setLoading false (setUsers data (handleAll (inputsOf evs) initial))
  /\ filteredUsers (cells (run (start initial) evs))
     = filteredUsers (setUsers data (handleAll (inputsOf evs) initial)).
Proof.
  intros Hok Hhost.
  pose proof (run_control (start initial) (start initial) evs eq_refl) as Hc.
  pose proof (run_filters (start initial) (cells (start initial)) evs eq_refl) as Hf.
  rewrite Hhost in Hc.
  assert (cells (run (start initial) evs)
          = setLoading false (setUsers data (handleAll (inputsOf evs) initial))) as ->.
  { assert (loaded (run (start initial) [FetchFulfilled res; JsonFulfilled data; TimerFired])
            = (data, false, None)) as Hdone.
    { assert (step (start initial) (FetchFulfilled res)
              = suspend (AwaitJson res) (start initial)) as Hstep
        by (unfold step; simpl; by rewrite Hok).
      rewrite run_cons, Hstep. reflexivity. }
    assert (loaded (run (start initial) evs) = (data, false, None)) as Hl
      by (rewrite <- Hdone; unfold control in Hc; congruence).
    apply state_eq; [|by rewrite Hf].
    simpl. rewrite handleAll_error. exact Hl. }
  done.
Qed.

Lemma load_succeeds_witness :
  Response.ok ok200 = true
  /\ hostEvents [FetchFulfilled ok200; User (SetCity "Gwenborough");
                 JsonFulfilled [leanne; ervin]; User (SetSearch " LEA ");
                 TimerFired]
     = [FetchFulfilled ok200; JsonFulfilled [leanne; ervin]; TimerFired]
  /\ filteredUsers
       (cells (run (start initial)
                 [FetchFulfilled ok200; User (SetCity "Gwenborough");
                  JsonFulfilled [leanne; ervin]; User (SetSearch " LEA ");
                  TimerFired]))
     = [leanne].
Proof.
  pose proof (load_succeeds
                [FetchFulfilled ok200; User (SetCity "Gwenborough");
                 JsonFulfilled [leanne; ervin]; User (SetSearch " LEA ");
                 TimerFired] ok200 [leanne; ervin]) as H.
  split; [reflexivity|]. split; [reflexivity|].
  destruct (H eq_refl eq_refl) as [_ ->]. reflexivity.
Defined.

(** X3. Once the load cycle has ended, nothing that happens later (a late
    settlement, the timer, the cleanup, filter input) changes [users],
    [loading] or [error]. *)
Theorem settled_is_final pre post :
  phase (run (start initial) pre) = Settled ->
  loaded (run (start initial) (pre ++ post)) = loaded (run (start initial) pre)
  /\ phase (run (start initial) (pre ++ post)) = Settled.
Proof.
  intros Hp. rewrite run_app.
  destruct (settled_run (run (start initial) pre) post Hp) as [-> ->]. done.
Qed.

Lemma settled_is_final_witness :
  phase (run (start initial) [FetchRejected Thrown.Nullish]) = Settled
  /\ loaded (run (start initial)
               ([FetchRejected Thrown.Nullish]
                ++ [FetchFulfilled ok200; JsonFulfilled [leanne]; TimerFired; Cleanup]))
     = ([], false, Some "Failed to load users").
Proof.
  split; [reflexivity|].
  destruct (settled_is_final [FetchRejected Thrown.Nullish]
              [FetchFulfilled ok200; JsonFulfilled [leanne]; TimerFired; Cleanup] eq_refl)
    as [-> _].
  reflexivity.
Defined.

Lemma abort_during_request_silent_witness :
  (phase (run (start initial) [FetchFulfilled ok200]) = AwaitFetch
   \/ exists res, phase (run (start initial) [FetchFulfilled ok200]) = AwaitJson res)
  /\ loaded (run (run (start initial) [FetchFulfilled ok200])
               (Cleanup :: [JsonFulfilled [leanne]; TimerFired]))
     = ([], true, None).
Proof.
  assert (phase (run (start initial) [FetchFulfilled ok200]) = AwaitFetch
          \/ exists res, phase (run (start initial) [FetchFulfilled ok200]) = AwaitJson res)
    as Hp by (right; by exists ok200).
  split; [exact Hp|].
  rewrite (abort_during_request_silent (run (start initial) [FetchFulfilled ok200])
             [JsonFulfilled [leanne]; TimerFired] Hp).
  reflexivity.
Defined.

Lemma abort_during_delay_quiet_witness :
  phase (run (start initial) [FetchFulfilled ok200; JsonFulfilled [leanne]])
  = AwaitDelay [leanne]
  /\ loading (cells (run (run (start initial) [FetchFulfilled ok200; JsonFulfilled [leanne]])
                       (Cleanup :: [TimerFired]))) = true
  /\ error (cells (run (run (start initial) [FetchFulfilled ok200; JsonFulfilled [leanne]])
                     (Cleanup :: [TimerFired]))) = None.
Proof.
  split; [reflexivity|].
  destruct (abort_during_delay_quiet
              (run (start initial) [FetchFulfilled ok200; JsonFulfilled [leanne]])
              [leanne] [TimerFired] eq_refl) as [-> ->].
  split; reflexivity.
Defined.

End traces.

(** ** What holds at every point after mount *)

Section invariants.

Implicit Types (c : Cycle) (ev : Event) (st : State).

Lemma cycle_inv_start : cycle_inv (start initial).
Proof. by split. Qed.

Lemma cycle_inv_step c ev : cycle_inv c -> cycle_inv (step c ev).
Proof.
  destruct c as [[u l e s ci co] a p]. unfold cycle_inv, loaded. simpl.
  destruct ev as [res|err|data|err| | |i].
  7: { destruct p, i; simpl; done. }
  all: destruct p; simpl; try done.
  all: try (intros [-> [= -> -> ->]]); try (intros [= -> -> ->]).
  all: unfold step, raise, on_finally, on_catch, update, cycle_inv; simpl.
  all: try (destruct (Response.ok res); simpl).
  all: try (case_bool_decide; simpl).
  all: try (destruct a; simpl).
  all: try done; try tauto; split; try done; try (by left); try (by right).
Qed.

Lemma cycle_inv_run c evs : cycle_inv c -> cycle_inv (run c evs).
Proof.
  revert c. induction evs as [|ev evs IH]; intros c Hc; [done|].
  rewrite run_cons. by apply IH, cycle_inv_step.
Qed.

(** X6. While the effect is suspended at any of its three [await]s, and
    whatever the user or the host has done since mount, nothing is stored,
    no error is set and [loading] is still true. *)
Theorem nothing_shown_while_pending evs :
  pending (run (start initial) evs) = true ->
  loaded (run (start initial) evs) = ([], true, None).
Proof.
  intros Hp. pose proof (cycle_inv_run _ evs cycle_inv_start) as Hinv.
  unfold cycle_inv, pending in *.
  destruct (phase (run (start initial) evs)); try done; by destruct Hinv.
Qed.

Lemma nothing_shown_while_pending_witness :
  pending (run (start initial)
             [User (SetSearch "lea"); FetchFulfilled ok200;
              JsonFulfilled [leanne; ervin]; Cleanup]) = true
  /\ loaded (run (start initial)
               [User (SetSearch "lea"); FetchFulfilled ok200;
                JsonFulfilled [leanne; ervin]; Cleanup]) = ([], true, None).
Proof.
  split; [reflexivity|].
  apply (nothing_shown_while_pending
           [User (SetSearch "lea"); FetchFulfilled ok200;
            JsonFulfilled [leanne; ervin]; Cleanup]).
  reflexivity.
Defined.

(** X7. At every point after mount an error message excludes both data and
    the loading flag: when [error] is set, [users] is empty and [loading]
    is false. So the live region never holds both of its texts, and the
    alert is never rendered beside the busy paragraph. *)
Theorem error_excludes_data_and_loading evs :
  (error (cells (run (start initial) evs)) <> None ->
   users (cells (run (start initial) evs)) = []
   /\ loading (cells (run (start initial) evs)) = false)
  /\ (length (srStatus (cells (run (start initial) evs))) <= 1)%nat
  /\ (alert (render (cells (run (start initial) evs))) <> None ->
      busy (render (cells (run (start initial) evs))) = false).
Proof.
  pose proof (cycle_inv_run _ evs cycle_inv_start) as Hinv.
  set (c := run (start initial) evs) in *.
  assert (error (cells c) <> None ->
          users (cells c) = [] /\ loading (cells c) = false) as Herr.
  { intros He. unfold cycle_inv, loaded in Hinv. destruct (phase c).
    - destruct Hinv as [_ H]. injection H as _ _ H. done.
    - destruct Hinv as [_ H]. injection H as _ _ H. done.
    - injection Hinv as _ _ H. done.
    - destruct Hinv as [[H|H] _]; done. }
  split_and!; [done | |].
  - unfold srStatus. destruct (error (cells c)) as [m|] eqn:He.
    + destruct Herr as [_ ->]; [done|]. simpl. destruct (Js.truthy m); simpl; lia.
    + rewrite length_app. simpl. destruct (loading (cells c)); simpl; lia.
  - unfold render. simpl. destruct (error (cells c)) as [m|] eqn:He.
    + intros _. by destruct Herr as [_ ->].
    + done.
Qed.

Lemma step_users c ev :
  (users (cells (step c ev)) = users (cells c)
   \/ (phase c = AwaitDelay (users (cells (step c ev))) /\ ev = TimerFired))
  /\ (forall d, phase (step c ev) = AwaitDelay d ->
                phase c = AwaitDelay d \/ ev = JsonFulfilled d).
Proof.
  destruct c as [[u l e s ci co] a p].
  destruct ev as [res|err|data|err| | |i].
  7: { split; [left; by destruct i | intros d; simpl; by left]. }
  all: destruct p, a; unfold step, raise, on_finally, on_catch, update; simpl.
  all: try (destruct (Response.ok res); simpl).
  all: try (case_bool_decide; simpl).
  all: split; [try (by left); try (by right) | intros d' Hd; try done].
  all: try (by left); right; congruence.
Qed.

(** X8. The stored collection is never made up or altered: at every point
    after mount [users] is empty, or it is exactly a body that the host
    delivered, stored when the timer fired. *)
Theorem users_come_from_the_body evs :
  users (cells (run (start initial) evs)) = []
  \/ (JsonFulfilled (users (cells (run (start initial) evs))) ∈ evs
      /\ TimerFired ∈ evs).
Proof.
  assert ((users (cells (run (start initial) evs)) = []
           \/ (JsonFulfilled (users (cells (run (start initial) evs))) ∈ evs
               /\ TimerFired ∈ evs))
          /\ (forall d, phase (run (start initial) evs) = AwaitDelay d ->
                        JsonFulfilled d ∈ evs)) as [H _]; [|done].
  induction evs as [|ev evs [IHu IHd]] using rev_ind.
  - split; [by left | done].
  - rewrite run_app. change (run ?c [ev]) with (step c ev).
    set (c := run (start initial) evs) in *.
    destruct (step_users c ev) as [Hu Hd]. split.
    + destruct Hu as [->|[Hp ->]].
      * destruct IHu as [?|[? ?]]; [by left | right].
        split; apply elem_of_app; by left.
      * right. split; apply elem_of_app; [left; by apply IHd | right; apply list_elem_of_here].
    + intros d Hp. apply elem_of_app. destruct (Hd d Hp) as [?| ->].
      * left. by apply IHd.
      * right. apply list_elem_of_here.
Qed.

End invariants.

(** ** The filter controls and the markup *)

Section controls.

Implicit Types (st : State) (u : User.t).

Lemma toLowerCaseUnit_idemp a :
  Js.toLowerCaseUnit (Js.toLowerCaseUnit a) = Js.toLowerCaseUnit a.
Proof. by destruct a as [[] [] [] [] [] [] [] []]. Qed.

Lemma toLowerCase_idemp s : Js.toLowerCase (Js.toLowerCase s) = Js.toLowerCase s.
Proof.
  induction s as [|a s IH]; [done|]. simpl. by rewrite toLowerCaseUnit_idemp, IH.
Qed.

Lemma trimEnd_idemp s : Js.trimEnd (Js.trimEnd s) = Js.trimEnd s.
Proof.
  induction s as [|a s IH]; [done|]. simpl.
  destruct (Js.trimEnd s) as [|b t] eqn:Ht.
  - destruct (Js.isWhiteSpace a) eqn:Ha; [done|]. simpl. by rewrite Ha.
  - simpl in *. by rewrite IH.
Qed.

Lemma trimEnd_keeps_head a s :
  Js.isWhiteSpace a = false -> exists t, Js.trimEnd (String a s) = String a t.
Proof.
  intros Ha. simpl. destruct (Js.trimEnd s); rewrite ?Ha; by eexists.
Qed.

Lemma trimStart_head s :
  Js.trimStart s = "" \/ exists a t, Js.trimStart s = String a t /\ Js.isWhiteSpace a = false.
Proof.
  induction s as [|a s IH]; [by left|]. simpl.
  destruct (Js.isWhiteSpace a) eqn:Ha; [done|]. right. by exists a, s.
Qed.

Lemma trim_idemp s : Js.trim (Js.trim s) = Js.trim s.
Proof.
  unfold Js.trim.
  assert (Js.trimStart (Js.trimEnd (Js.trimStart s)) = Js.trimEnd (Js.trimStart s)) as ->.
  { destruct (trimStart_head s) as [->|(a & t & -> & Ha)]; [done|].
    destruct (trimEnd_keeps_head a t Ha) as [t' ->]. simpl. by rewrite Ha. }
  apply trimEnd_idemp.
Qed.

Lemma filter_sublist_impl {A} (f g : A -> bool) (l : list A) :
  (forall x, f x = true -> g x = true) ->
  List.filter f l `sublist_of` List.filter g l.
Proof.
  intros Hfg. induction l as [|x l IH]; simpl; [constructor|].
  destruct (f x) eqn:Hf.
  - rewrite (Hfg x Hf). by constructor.
  - destruct (g x); [by constructor | done].
Qed.

Lemma filter_length_eq {A} (f : A -> bool) (l : list A) :
  length (List.filter f l) = length l -> List.filter f l = l.
Proof.
  induction l as [|x l IH]; simpl; [done|].
  destruct (f x); simpl.
  - intros [= H]. by rewrite IH.
  - pose proof (List.filter_length_le f l). lia.
Qed.

Lemma cityOptions_NoDup st : NoDup (cityOptions st).
Proof. apply options_spec. Qed.

Lemma companyOptions_NoDup st : NoDup (companyOptions st).
Proof. apply options_spec. Qed.

(** X9. Each filter only narrows: the filtered list is a subsequence of the
    list obtained with the search text emptied, with the city deselected,
    or with the company deselected. *)
Theorem each_filter_narrows st :
  filteredUsers st `sublist_of` filteredUsers (setSearch "" st)
  /\ filteredUsers st `sublist_of` filteredUsers (setCity "" st)
  /\ filteredUsers st `sublist_of` filteredUsers (setCompany "" st).
Proof.
  unfold filteredUsers, keep. simpl. split_and!; apply filter_sublist_impl; intros u.
  - rewrite !andb_true_iff. tauto.
  - rewrite !andb_true_iff. tauto.
  - rewrite !andb_true_iff. tauto.
Qed.

(** X10. A search text made of white space only filters nothing by name: the
    result is the one for the empty search text. *)
Theorem blank_search_is_no_search q st :
  Js.trim q = "" ->
  filteredUsers (setSearch q st) = filteredUsers (setSearch "" st).
Proof. intros Hq. unfold filteredUsers. simpl. by rewrite Hq. Qed.

Lemma blank_search_is_no_search_witness :
  Js.trim "   " = ""
  /\ filteredUsers (setSearch "   " (withUsers [leanne; ervin])) = [leanne; ervin].
Proof.
  split; [reflexivity|].
  rewrite (blank_search_is_no_search "   " (withUsers [leanne; ervin])); reflexivity.
Defined.

(** X11. The result of a search does not depend on the case of the search text
    nor on white space around it. *)
Theorem search_ignores_case_and_padding q st :
  filteredUsers (setSearch (Js.toLowerCase q) st) = filteredUsers (setSearch q st)
  /\ filteredUsers (setSearch (Js.trim q) st) = filteredUsers (setSearch q st).
Proof.
  unfold filteredUsers. simpl. split.
  - by rewrite <- trim_toLowerCase, toLowerCase_idemp, trim_toLowerCase.
  - by rewrite trim_idemp.
Qed.

(** X12. The count line never shows more records than there are, and shows as
    many exactly when no record is filtered out. *)
Theorem count_bounds st :
  ((count (render st)).1 <= (count (render st)).2)%nat
  /\ ((count (render st)).1 = (count (render st)).2 <-> filteredUsers st = users st).
Proof.
  unfold render. simpl. split.
  - apply sublist_length, filter_sublist.
  - split; [apply filter_length_eq | by intros ->].
Qed.

(** X13. The "Clear all filters" button is disabled exactly when pressing it
    would change nothing, and it is disabled once pressed. *)
Theorem clearDisabled_iff st :
  (clearDisabled st = true <-> clearAll st = st)
  /\ clearDisabled (clearAll st) = true.
Proof.
  split; [|done]. destruct st as [u l e s ci co].
  unfold clearDisabled, clearAll, setCompany, setCity, setSearch. simpl.
  rewrite !andb_true_iff, !negb_true_iff, !truthy_false. split.
  - by intros [[-> ->] ->].
  - by intros [= <- <- <-].
Qed.

(** X14. The values of a select's entries are pairwise distinct exactly when no
    record has an empty city (company name); otherwise the derived entry
    with the empty value coincides with the fixed "All ..." entry. *)
Theorem option_values_distinct st :
  (NoDup (cityOptionValues st)
   <-> forall u, u ∈ users st -> Address.city (User.address u) <> "")
  /\ (NoDup (companyOptionValues st)
      <-> forall u, u ∈ users st -> Company.name (User.company u) <> "").
Proof.
  unfold cityOptionValues, companyOptionValues. rewrite !NoDup_cons.
  pose proof (cityOptions_NoDup st) as Hc. pose proof (companyOptions_NoDup st) as Hk.
  rewrite cityOptions_elem, companyOptions_elem. split.
  - split.
    + intros [Hn _] u Hu He. apply Hn. by exists u.
    + intros H. split; [|done]. intros (u & Hu & He). by apply (H u).
  - split.
    + intros [Hn _] u Hu He. apply Hn. by exists u.
    + intros H. split; [|done]. intros (u & Hu & He). by apply (H u).
Qed.

(** X15. The result grid and the "no results" block are never rendered
    together, and neither is rendered beside the busy paragraph or the
    alert. Once loaded without error, a non-empty source gets exactly one
    of the two, and an empty source gets neither. *)
Theorem status_blocks_exclusive st :
  (results (render st) <> None ->
   busy (render st) = false /\ alert (render st) = None /\ noResults (render st) = false)
  /\ (noResults (render st) = true ->
      busy (render st) = false /\ alert (render st) = None /\ results (render st) = None)
  /\ (loading st = false -> Js.truthy_opt (error st) = false -> users st <> [] ->
      (results (render st) <> None <-> noResults (render st) = false))
  /\ (users st = [] -> results (render st) = None /\ noResults (render st) = false).
Proof.
  pose proof (no_users_no_matches st) as Hnone.
  unfold render. simpl.
  destruct (loading st), (Js.truthy_opt (error st)), (users st) as [|u us],
    (filteredUsers st) as [|v vs]; simpl; split_and!; try done.
  all: try (intros; by split_and!).
  all: try (by specialize (Hnone eq_refl)).
Qed.

Lemma site_fixed u : StartsWith "http" (User.website u) -> site u = User.website u.
Proof.
  intros Hs%prefix_StartsWith. unfold site, Js.startsWith. by rewrite Hs.
Qed.

(** X16. The link target always starts with "http", and computing it again
    from a record whose website is already a link target changes
    nothing. *)
Theorem site_normal_form u :
  StartsWith "http" (site u)
  /\ (forall u', User.website u' = site u -> site u' = site u).
Proof.
  assert (StartsWith "http" (site u)) as Hs.
  { unfold site, Js.startsWith.
    destruct (String.prefix "http" (User.website u)) eqn:Hp.
    - by apply prefix_StartsWith.
    - by exists ("s://" +:+ User.website u). }
  split; [done|]. intros u' Hw.
  rewrite <- Hw. apply site_fixed. by rewrite Hw.
Qed.

(** X17. The options depend only on which values occur in the source: two
    sources with the same cities (company names), in any order and any
    number of times, give the same options. *)
Theorem options_depend_on_values st st' :
  ((forall c, c ∈ map (fun u => Address.city (User.address u)) (users st)
              <-> c ∈ map (fun u => Address.city (User.address u)) (users st')) ->
   cityOptions st = cityOptions st')
  /\ ((forall c, c ∈ map (fun u => Company.name (User.company u)) (users st)
                 <-> c ∈ map (fun u => Company.name (User.company u)) (users st')) ->
      companyOptions st = companyOptions st').
Proof.
  assert (forall xs ys : list string,
             (forall c, c ∈ xs <-> c ∈ ys) ->
             Js.sort (Js.array_from_set xs) = Js.sort (Js.array_from_set ys)) as Hgen.
  { intros xs ys Hsame. apply sort_unique.
    - rewrite sort_Permutation. apply NoDup_Permutation.
      + apply array_from_set_NoDup.
      + apply array_from_set_NoDup.
      + intros c. rewrite !array_from_set_elem. apply Hsame.
    - apply Sorted_merge_sort, _. }
  split; intros H; by apply Hgen.
Qed.

Lemma options_depend_on_values_witness :
  cityOptions (withUsers [ervin; leanne; ervin]) = cityOptions (withUsers [leanne; ervin]).
Proof.
  destruct (options_depend_on_values (withUsers [ervin; leanne; ervin])
              (withUsers [leanne; ervin])) as [H _].
  apply H. intros c. simpl. rewrite !elem_of_cons. tauto.
Defined.

(** X18. There are never more options than records, and a select has no
    derived entry exactly when the source is empty. *)
Theorem options_bounds st :
  (length (cityOptions st) <= length (users st))%nat
  /\ (length (companyOptions st) <= length (users st))%nat
  /\ (cityOptions st = [] <-> users st = [])
  /\ (companyOptions st = [] <-> users st = []).
Proof.
  assert (forall xs : list string,
             (length (Js.sort (Js.array_from_set xs)) <= length xs)%nat) as Hlen.
  { intros xs. rewrite sort_Permutation.
    apply submseteq_length, NoDup_submseteq; [apply array_from_set_NoDup|].
    intros x. by rewrite array_from_set_elem. }
  assert (forall (f : User.t -> string),
             Js.sort (Js.array_from_set (map f (users st))) = [] <-> users st = [])
    as Hnil.
  { intros f. split.
    - intros He. destruct (users st) as [|u us]; [done|].
      assert (f u ∈ Js.sort (Js.array_from_set (map f (u :: us)))) as Hin
        by (rewrite sort_Permutation, array_from_set_elem; apply list_elem_of_here).
      rewrite He in Hin. by apply elem_of_nil in Hin.
    - by intros ->. }
  unfold cityOptions, companyOptions. split_and!.
  - etrans; [apply Hlen|]. by rewrite length_map.
  - etrans; [apply Hlen|]. by rewrite length_map.
  - apply Hnil.
  - apply Hnil.
Qed.

(** X19. Every record shown has its city and its company name among the
    entries of the two selects. *)
Theorem shown_records_have_options st u :
  u ∈ filteredUsers st ->
  Address.city (User.address u) ∈ cityOptions st
  /\ Company.name (User.company u) ∈ companyOptions st.
Proof.
  intros Hu.
  assert (u ∈ users st) as Hin by (eapply elem_of_sublist; [done | apply filter_sublist]).
  split; [apply cityOptions_elem | apply companyOptions_elem]; by exists u.
Qed.

Lemma shown_records_have_options_witness :
  ervin ∈ filteredUsers (setSearch "erv" (withUsers [leanne; ervin]))
  /\ "Wisokyburgh" ∈ cityOptions (setSearch "erv" (withUsers [leanne; ervin])).
Proof.
  assert (ervin ∈ filteredUsers (setSearch "erv" (withUsers [leanne; ervin]))) as Hin
    by apply list_elem_of_here.
  split; [exact Hin|].
  by destruct (shown_records_have_options _ _ Hin) as [H _].
Defined.

End controls.

(** ** What a failed load looks like *)

Section failed_load.

Implicit Types (c : Cycle) (ev : Event) (err : Thrown.t).

Lemma throws_step c ev err :
  throws c ev err ->
  step c ev = raise err c
  /\ (phase c = AwaitFetch \/ exists res, phase c = AwaitJson res).
Proof.
  intros [[Hp ->]|[(res & Hp & ->)|(res & Hp & -> & Hok & ->)]];
    unfold step; rewrite Hp, ?Hok; split; try done; try (by left); right; by exists res.
Qed.

(** X20. After a load that failed with anything but an [AbortError], whatever
    came before and whatever comes after: the busy paragraph, the result
    grid and the "no results" block are not rendered, the count line shows
    0 of 0, and the alert shows the stored message, unless that message
    is the empty string, in which case no alert is rendered either. *)
Theorem failed_load_view pre ev err post :
  throws (run (start initial) pre) ev err ->
  Thrown.name err <> Some "AbortError" ->
  let st := cells (run (start initial) (pre ++ ev :: post)) in
  let m := Js.nullish (Thrown.message err) "Failed to load users" in
  busy (render st) = false
  /\ alert (render st) = (if Js.truthy m then Some m else None)
  /\ results (render st) = None
  /\ noResults (render st) = false
  /\ count (render st) = (0, 0)%nat.
Proof.
  intros Hthrow Hname st m. subst st m.
  pose proof (cycle_inv_run _ pre cycle_inv_start) as Hinv.
  rewrite run_app, run_cons. set (c := run (start initial) pre) in *.
  destruct (throws_step c ev err Hthrow) as [-> Hp].
  assert (aborted c = false /\ loaded c = ([], true, None)) as [Ha Hl]
    by (unfold cycle_inv in Hinv; destruct Hp as [Hp|[res Hp]]; by rewrite Hp in Hinv).
  destruct (raise_loaded err c) as (Hs & Hu & Hld & He).
  rewrite bool_decide_eq_false_2 in He by done. rewrite Ha in Hld.
  injection Hl as Hu0 _ _. rewrite Hu0 in Hu.
  destruct (settled_run (raise err c) post Hs) as [_ (Hu' & Hl' & He')%loaded_inv].
  rewrite Hu in Hu'. rewrite Hld in Hl'. rewrite He in He'.
  set (st := cells (run (raise err c) post)) in *.
  unfold render. simpl. rewrite (no_users_no_matches st Hu'), Hu', Hl', He'. simpl.
  by destruct (Js.truthy _).
Qed.

Lemma failed_load_view_witness :
  throws (run (start initial) [User (SetCity "Gwenborough")])
    (FetchRejected (Thrown.Error "")) (Thrown.Error "")
  /\ Thrown.name (Thrown.Error "") <> Some "AbortError"
  /\ alert (render (cells (run (start initial)
                             ([User (SetCity "Gwenborough")]
                              ++ FetchRejected (Thrown.Error "") :: [Cleanup]))))
     = None.
Proof.
  assert (throws (run (start initial) [User (SetCity "Gwenborough")])
            (FetchRejected (Thrown.Error "")) (Thrown.Error "")) as Hthrow
    by (left; split; reflexivity).
  assert (Thrown.name (Thrown.Error "") <> Some "AbortError") as Hname by discriminate.
  split; [exact Hthrow|]. split; [exact Hname|].
  destruct (failed_load_view [User (SetCity "Gwenborough")]
              (FetchRejected (Thrown.Error "")) (Thrown.Error "") [Cleanup] Hthrow Hname)
    as (_ & -> & _).
  reflexivity.
Defined.

End failed_load.
